(** * The [projects] command of the OpenShift client

    A shallow embedding of [pkg/oc/cli/projects/projects.go]: the options
    record, [Validate], [RunProjects] and the [Run] closure installed by
    [NewCmdProjects], followed by the properties of the rendered text, of the
    returned error and of the calls made to the server. *)

From Stdlib Require Import Ascii Bool Arith Lia.
From Stdlib Require String.
From Stdlib Require Import Sorting.Sorted Sorting.Permutation.
From Stdlib Require OrderedTypeEx.
From stdpp Require Import base option list sorting gmap strings.

(** * Part I: the model *)

(** ** Strings

    A Go [string] is a sequence of bytes; it is modelled as a Rocq [string]
    (a list of 8-bit characters).  [len(s)] is [String.length s], [s == t] is
    [String.eqb s t] and [s < t] is the byte-wise lexicographic order
    [String.ltb s t]. *)

(** The line feed written ["\n"] in the source. *)
Definition nl : string := String "010"%char EmptyString.

(** The double quote (byte 34) that [%q] puts around its argument. *)
Definition dq : string := String "034"%char EmptyString.

(** Bytes that [strconv.Quote] copies unchanged: printable ASCII other than
    the double quote and the backslash. *)
Definition plain_byte (c : ascii) : bool :=
  let n := nat_of_ascii c in
  (32 <=? n) && (n <=? 126) && negb (n =? 34) && negb (n =? 92).

Fixpoint plain (s : string) : bool :=
  match s with
  | EmptyString => true
  | String c s' => plain_byte c && plain s'
  end.

(** The lines of a text: the pieces between line feeds. *)
Fixpoint lines_from (cur : string) (s : string) : list string :=
  match s with
  | EmptyString => [cur]
  | String c s' =>
      if Ascii.eqb c "010"%char
      then cur :: lines_from EmptyString s'
      else lines_from (cur +:+ String c EmptyString) s'
  end.

Definition lines (s : string) : list string := lines_from EmptyString s.

(** Concatenation of a list of strings, in order. *)
Definition concat_strings (l : list string) : string :=
  foldr String.append EmptyString l.

(** ** Errors

    A Go [error] value is an interface; [nil] is modelled by [None].  The
    errors that reach this file are either API status errors, which carry a
    reason, or plain errors such as the one [fmt.Errorf] builds. *)

Inductive StatusReason : Type :=
| StatusReasonUnknown
| StatusReasonForbidden
| StatusReasonNotFound
| StatusReasonOther (reason : string).

Inductive error : Type :=
| StatusError (reason : StatusReason) (message : string)
| PlainError (message : string).

(** [kapierrors.ReasonForError]: the reason of a status error, and
    [StatusReasonUnknown] for any other value, [nil] included. *)
Definition ReasonForError (err : option error) : StatusReason :=
  match err with
  | Some (StatusError reason _) => reason
  | _ => StatusReasonUnknown
  end.

(** [kapierrors.IsForbidden]. *)
Definition IsForbidden (err : option error) : bool :=
  match ReasonForError err with
  | StatusReasonForbidden => true
  | _ => false
  end.

(** ** Data *)

(** [projectapi.Project], with the two fields the command reads. *)
Record Project : Type := mkProject {
  Name : string;
  Annotations : gmap string string
}.

(** Indexing a Go [map[string]string]: a missing key (and a nil map) yields
    the zero value, the empty string. *)
Definition map_index (m : gmap string string) (k : string) : string :=
  default EmptyString (m !! k).

(** [clientcmdapi.Context], with the fields the command reads. *)
Record api_Context : Type := mkContext {
  Namespace : string;
  Cluster : string;
  AuthInfo : string
}.

(** [clientcmdapi.Config].  [Contexts] is a [map[string]*Context]: indexing
    it yields a pointer, [nil] ([None]) when the key is missing. *)
Record api_Config : Type := mkConfig {
  Contexts : gmap string api_Context;
  CurrentContext : string
}.

(** [restclient.Config], with the field the command reads. *)
Record rest_Config : Type := mkRestConfig {
  Host : string
}.

(** What the two clients ([Client], [KubeClient]) answer.  Both server calls
    are reads: [ocproject.ConfirmProjectAccess] yields an error or [nil] for
    a project name, [ocproject.GetProjects] a slice of projects and an
    error. *)
Record Clients : Type := mkClients {
  ConfirmProjectAccess_answer : string → option error;
  GetProjects_answer : list Project * option error
}.

(** [ProjectsOptions].  [Client] and [KubeClient] are represented together by
    [Server]; [PathOptions] is never read by the code embedded here. *)
Record ProjectsOptions : Type := mkProjectsOptions {
  Config : api_Config;
  ClientConfig : rest_Config;
  Server : Clients;
  CommandName : string;
  DisplayShort : bool
}.

(** [SortByProjectName.Less], on two elements of the slice. *)
Definition Less (p q : Project) : bool := String.ltb (Name p) (Name q).

(** [name_le p q]: [q] may stand after [p] in a slice sorted by [Less]. *)
Definition name_le (p q : Project) : Prop := Less q p = false.

(** [name_lt p q]: the name of [p] is strictly below the name of [q]. *)
Definition name_lt (p q : Project) : Prop := Less p q = true.

(** ** [sort.Interface]

    The three methods through which [sort.Sort] reads and reorders the data
    it is given.  The data is an object that [Swap] mutates; here a method
    takes the state of the object and [Swap] returns the new state.  A
    method that panics returns [None]. *)

Module sort.

Record Interface (T : Type) : Type := mkInterface {
  Len : T → Z;
  Less : T → Z → Z → option bool;
  Swap : T → Z → Z → option T
}.

Arguments mkInterface {T}.
Arguments Len {T}.
Arguments Less {T}.
Arguments Swap {T}.

End sort.

(** ** [SortByProjectName]

    The slice type that implements [sort.Interface] (lines 50 to 61).  A Go
    [int] is a signed 64-bit integer; an index is modelled as a [Z], the
    length of a slice always fits, and indexing outside [0 .. len(p)-1] is a
    run-time panic, modelled by [None]. *)

Module SortByProjectName.

(** [p[i]]: the element at index [i], or the panic. *)
Definition at_index (p : list Project) (i : Z) : option Project :=
  if bool_decide (0 ≤ i < Z.of_nat (length p))%Z
  then p !! Z.to_nat i
  else None.

(** [Len]. *)
Definition Len (p : list Project) : Z := Z.of_nat (length p).

(** [Swap]: [p[i], p[j] = p[j], p[i]].  The two elements on the right are
    read first, [p[j]] then [p[i]]; then [p[i]] and [p[j]] are assigned, in
    that order. *)
Definition Swap (p : list Project) (i j : Z) : option (list Project) :=
  pj ← at_index p j;
  pi ← at_index p i;
  Some (<[Z.to_nat j := pi]> (<[Z.to_nat i := pj]> p)).

(** [Less]: [p[i].Name < p[j].Name]. *)
Definition Less (p : list Project) (i j : Z) : option bool :=
  pi ← at_index p i;
  pj ← at_index p j;
  Some (Less pi pj).

(** The slice type as a [sort.Interface]: the value [SortByProjectName(projects)]
    that line 173 hands to [sort.Sort]. *)
Definition interface : sort.Interface (list Project) :=
  sort.mkInterface Len Less Swap.

End SortByProjectName.

(** What the documentation of [sort.Interface] demands of an implementation,
    for data that holds the elements [elems s] and an order [lt] on them:
    [lt] is a transitive ordering (with [lt x y] and [lt y z] also [lt x z];
    with neither [lt x y] nor [lt y z] neither [lt x z]) that holds of no
    element and itself; [Len] is the number of elements; [Less] compares the
    elements at two indices; [Swap] exchanges the elements at two indices. *)
Record Valid {T A : Type} (data : sort.Interface T) (elems : T → list A)
    (lt : A → A → bool) : Prop := mkValid {
  lt_irreflexive : ∀ x, lt x x = false;
  lt_transitive : ∀ x y z, lt x y = true → lt y z = true → lt x z = true;
  lt_incomparable : ∀ x y z, lt x y = false → lt y z = false → lt x z = false;
  Len_elems : ∀ s, sort.Len data s = Z.of_nat (length (elems s));
  Less_elems : ∀ s i j x y,
    elems s !! i = Some x → elems s !! j = Some y →
    sort.Less data s (Z.of_nat i) (Z.of_nat j) = Some (lt x y);
  Swap_elems : ∀ s i j x y,
    elems s !! i = Some x → elems s !! j = Some y →
    ∃ s', sort.Swap data s (Z.of_nat i) (Z.of_nat j) = Some s'
          ∧ elems s' = <[j := x]> (<[i := y]> (elems s))
}.

(** [ascending lt x y]: [y] may stand after [x] in data sorted by [lt]. *)
Definition ascending {A : Type} (lt : A → A → bool) : relation A :=
  λ x y, lt y x = false.

(** ** Code outside this file

    The command calls into the Go standard library ([sort.Sort], the [%q]
    verb of [fmt]) and into two other packages of the repository (the
    constant [oapi.OpenShiftDisplayName] and the function
    [clientcfg.GetContextNickname]).  They are taken as parameters, the
    library functions together with their documented contract:
    - [sort.Sort] works on any [sort.Interface]; when the implementation is
      a valid one, it rearranges the elements into ascending order as
      determined by [Less]: the elements it leaves are a permutation of
      those it was given and none is [Less] than one that stands before it.
      Nothing is promised for an implementation that is not valid, and the
      sort is not guaranteed to be stable;
    - [%q] renders a string of plain bytes between two double quotes. *)

Class Externals : Type := {
  Sort : ∀ T : Type, sort.Interface T → T → T;
  Sort_Permutation :
    ∀ (T A : Type) (data : sort.Interface T) (elems : T → list A) lt,
      Valid data elems lt → ∀ s, elems (Sort T data s) ≡ₚ elems s;
  Sort_sorted :
    ∀ (T A : Type) (data : sort.Interface T) (elems : T → list A) lt,
      Valid data elems lt →
      ∀ s, StronglySorted (ascending lt) (elems (Sort T data s));
  Quote : string → string;
  Quote_plain : ∀ s, plain s = true → Quote s = dq +:+ s +:+ dq;
  OpenShiftDisplayName : string;
  GetContextNickname : string → string → string → string
}.

(** ** Effects

    [RunProjects] talks to the server and writes text.  Both are recorded, in
    order, in a log.  [fmt.Println] and [fmt.Printf] write to the standard
    output of the process, [fmt.Fprintf(o.Out, ...)] to the stream of the
    options. *)

Inductive stream : Type := Stdout | Out.

Inductive event : Type :=
| CallConfirmProjectAccess (name : string)
| CallGetProjects
| EvWrite (w : stream) (text : string).

Definition M (A : Type) : Type := list event → A * list event.

#[global] Instance M_ret : MRet M := λ A a log, (a, log).

#[global] Instance M_bind : MBind M :=
  λ A B f m log, let '(a, log') := m log in f a log'.

Definition emit (e : event) : M unit := λ log, (tt, log ++ [e]).

(** Running a computation from the empty log. *)
Definition run {A} (m : M A) : A * list event := m [].

Definition ConfirmProjectAccess (name : string) (c : Clients) : M (option error) :=
  _ ← emit (CallConfirmProjectAccess name);
  mret (ConfirmProjectAccess_answer c name).

Definition GetProjects (c : Clients) : M (list Project * option error) :=
  _ ← emit CallGetProjects;
  mret (GetProjects_answer c).

Definition Println (s : string) : M unit := emit (EvWrite Stdout (s +:+ nl)).

Definition Printf (s : string) : M unit := emit (EvWrite Stdout s).

Definition Fprintf (w : stream) (s : string) : M unit := emit (EvWrite w s).

(** What a log holds: the writes, and the text that reaches the terminal
    when [o.Out] is the standard output. *)
Definition writes (log : list event) : list (stream * string) :=
  omap (λ e, match e with EvWrite w s => Some (w, s) | _ => None end) log.

Definition output (log : list event) : string :=
  concat_strings (writes log).*2.

(** The calls to the server a log holds, in order. *)
Definition is_call (e : event) : bool :=
  match e with
  | EvWrite _ _ => false
  | _ => true
  end.

Definition calls (log : list event) : list event := filter is_call log.

(** ** The command *)

Section Command.
Context `{Externals}.

(** [Validate]. *)
Definition Validate (args : list string) : option error :=
  if 0 <? length args
  then Some (PlainError "no arguments should be passed")
  else None.

(** [sort.Sort(SortByProjectName(projects))] (line 173): the slice as the
    sort leaves it. *)
Definition sort_Sort (projects : list Project) : list Project :=
  Sort (list Project) SortByProjectName.interface projects.

(** The display name read in the loop of [RunProjects] (lines 176 to 180):
    the annotation [oapi.OpenShiftDisplayName], and the annotation
    ["displayName"] when the former is empty. *)
Definition displayName_of (project : Project) : string :=
  let displayName := map_index (Annotations project) OpenShiftDisplayName in
  if String.length displayName =? 0
  then map_index (Annotations project) "displayName"
  else displayName.

(** Modelled from the spec: [projectapihelpers.DisplayNameAndNameForProject],
    a function of the repository that is not among the given sources.  The
    spec gives the display form of the sole project as the name alone when
    the project has no distinct display name, and as the name followed by the
    display name in parentheses otherwise; the display name is resolved with
    the precedence of the two annotation keys. *)
Definition DisplayNameAndNameForProject (project : Project) : string :=
  let displayName := displayName_of project in
  if (0 <? String.length displayName)
     && negb (String.eqb displayName (Name project))
  then Name project +:+ " (" +:+ displayName +:+ ")"
  else Name project.

(** The state of the loop over the sorted projects: the message so far, the
    marker (declared before the loop, so it keeps its value from one
    iteration to the next) and the counter. *)
Record loop_state : Type := mkLoop {
  msg_of : string;
  asterisk_of : string;
  count_of : nat
}.

(** One iteration of the loop (lines 175 to 195).  [count] is a Go [int];
    it counts the elements of a slice and cannot overflow. *)
Definition loop_body (DisplayShort : bool) (currentProject : string)
    (currentProjectExists : bool) (st : loop_state) (project : Project)
    : loop_state :=
  let count := count_of st + 1 in
  let displayName := map_index (Annotations project) OpenShiftDisplayName in
  let linebreak := nl in
  let displayName :=
    if String.length displayName =? 0
    then map_index (Annotations project) "displayName"
    else displayName in
  let asterisk :=
    if currentProjectExists && negb DisplayShort
    then (if String.eqb currentProject (Name project) then "  * " else "    ")
    else asterisk_of st in
  if (0 <? String.length displayName)
     && negb (String.eqb displayName (Name project))
     && negb DisplayShort
  then
    mkLoop (msg_of st +:+ nl +:+ asterisk +:+ Name project +:+ " - " +:+ displayName)
           asterisk count
  else
    let linebreak :=
      if DisplayShort && (count =? 1) then EmptyString else linebreak in
    mkLoop (msg_of st +:+ linebreak +:+ asterisk +:+ Name project)
           asterisk count.

(** The header of the listing of two or more projects. *)
Definition header (CommandName : string) : string :=
  "You have access to the following projects and can switch between them with '"
  +:+ CommandName +:+ " project <projectname>':" +:+ nl.

Definition not_a_member : string :=
  "You are not a member of any projects. You can request a project to be created with the 'new-project' command.".

(** The [switch] on [len(projects)] (lines 155 to 197): the value of [msg]
    when it is printed. *)
Definition projects_msg (o : ProjectsOptions) (currentProject : string)
    (currentProjectExists : bool) (projects : list Project) : string :=
  match projects with
  | [] =>
      if negb (DisplayShort o) then not_a_member else EmptyString
  | [project] =>
      if DisplayShort o
      then Name project
      else "You have one project on this server: "
           +:+ Quote (DisplayNameAndNameForProject project) +:+ "."
  | _ =>
      let msg :=
        if negb (DisplayShort o) then header (CommandName o) else EmptyString in
      msg_of (foldl (loop_body (DisplayShort o) currentProject currentProjectExists)
                    (mkLoop msg EmptyString 0) (sort_Sort projects))
  end.

(** The three texts written after the message. *)
Definition forbidden_advisory (currentProject : string) : string :=
  "You do not have rights to view project " +:+ Quote currentProject
  +:+ ". Please switch to an existing one." +:+ nl.

Definition short_footer (currentProject host : string) : string :=
  nl +:+ "Using project " +:+ Quote currentProject
  +:+ " on server " +:+ Quote host +:+ "." +:+ nl.

Definition long_footer (currentProject context host : string) : string :=
  nl +:+ "Using project " +:+ Quote currentProject
  +:+ " from context named " +:+ Quote context
  +:+ " on server " +:+ Quote host +:+ "." +:+ nl.

(** [RunProjects].  The variable [currentProjectErr] declared on line 137 is
    never assigned: the short variable declaration in the [if] on line 142
    declares a second variable of that name, whose scope is that statement.
    The outer variable therefore still holds [nil] on lines 202 and 205. *)
Definition RunProjects (o : ProjectsOptions) : M (option error) :=
  let config := Config o in
  let currentContext := Contexts config !! CurrentContext config in
  let currentProject :=
    match currentContext with
    | Some c => Namespace c
    | None => EmptyString
    end in
  let currentProjectErr : option error := None in
  currentProjectExists ←
    (if 0 <? String.length currentProject
     then
       currentProjectErr' ← ConfirmProjectAccess currentProject (Server o);
       mret (match currentProjectErr' with None => true | Some _ => false end)
     else mret false);
  let defaultContextName :=
    match currentContext with
    | Some c => GetContextNickname (Namespace c) (Cluster c) (AuthInfo c)
    | None => EmptyString
    end in
  '(projects, err) ← GetProjects (Server o);
  match err with
  | None =>
      _ ← Println (projects_msg o currentProject currentProjectExists projects);
      if (0 <? length projects) && negb (DisplayShort o)
      then
        if negb currentProjectExists
        then
          _ ← (if IsForbidden currentProjectErr
               then Printf (forbidden_advisory currentProject)
               else mret tt);
          mret currentProjectErr
        else
          _ ← (if String.eqb (CurrentContext config) defaultContextName
               then Fprintf Out (short_footer currentProject (Host (ClientConfig o)))
               else Fprintf Out (long_footer currentProject (CurrentContext config)
                                             (Host (ClientConfig o))));
          mret None
      else mret None
  | Some e => mret (Some e)
  end.

(** What the factory hands to [Complete]: the raw configuration, the REST
    configuration, and the clients, each with the error of the call that
    builds it.  Building a client sends nothing to the server. *)
Record Factory : Type := mkFactory {
  RawConfig : api_Config * option error;
  ToRESTConfig : rest_Config * option error;
  ClientSet : Clients * option error;
  NewForConfig : rest_Config → option error
}.

(** [NewProjectsOptions], the binding of the flag [--short] and [Complete]:
    the options as [Complete] leaves them, or the first error met. *)
Definition Complete (f : Factory) (fullName : string) (short : bool)
    : ProjectsOptions + error :=
  let '(config, err) := RawConfig f in
  match err with
  | Some e => inr e
  | None =>
      let '(clientConfig, err) := ToRESTConfig f in
      match err with
      | Some e => inr e
      | None =>
          let '(clients, err) := ClientSet f in
          match err with
          | Some e => inr e
          | None =>
              match NewForConfig f clientConfig with
              | Some e => inr e
              | None => inl (mkProjectsOptions config clientConfig clients fullName short)
              end
          end
      end
  end.

(** How an invocation ends.  [kcmdutil.CheckErr] returns on [nil] and
    otherwise reports the error and ends the process; [UsageErrorf] wraps the
    message of an error of [Complete]. *)
Inductive outcome : Type :=
| Returned
| Fatal (e : error)
| FatalUsage (e : error).

Definition CheckErr (err : option error) (k : M outcome) : M outcome :=
  match err with
  | Some e => mret (Fatal e)
  | None => k
  end.

(** The [Run] closure of the command built by [NewCmdProjects]. *)
Definition Run (f : Factory) (fullName : string) (short : bool)
    (args : list string) : M outcome :=
  match Complete f fullName short with
  | inr e => mret (FatalUsage e)
  | inl o =>
      CheckErr (Validate args)
        (err ← RunProjects o;
         CheckErr err (mret Returned))
  end.

(** ** The selection and the listing, named

    The values [RunProjects] computes on its way, as functions of the
    options, and the text one iteration of the loop contributes. *)

(** The current project (lines 130 to 134): the namespace of the active
    context, empty when there is none. *)
Definition currentProject_of (o : ProjectsOptions) : string :=
  match Contexts (Config o) !! CurrentContext (Config o) with
  | Some c => Namespace c
  | None => EmptyString
  end.

(** Whether the current project was confirmed accessible (lines 141 to
    145): a project is selected and the access check answered [nil]. *)
Definition currentProjectExists_of (o : ProjectsOptions) : bool :=
  (0 <? String.length (currentProject_of o))
  && match ConfirmProjectAccess_answer (Server o) (currentProject_of o) with
     | None => true
     | Some _ => false
     end.

(** The nickname computed from the active context (lines 147 to 150). *)
Definition defaultContextName_of (o : ProjectsOptions) : string :=
  match Contexts (Config o) !! CurrentContext (Config o) with
  | Some c => GetContextNickname (Namespace c) (Cluster c) (AuthInfo c)
  | None => EmptyString
  end.

(** The footer of lines 210 to 214. *)
Definition footer_of (o : ProjectsOptions) : string :=
  if String.eqb (CurrentContext (Config o)) (defaultContextName_of o)
  then short_footer (currentProject_of o) (Host (ClientConfig o))
  else long_footer (currentProject_of o) (CurrentContext (Config o))
                   (Host (ClientConfig o)).

(** The events of the access check: one call when a project is selected. *)
Definition access_events (o : ProjectsOptions) : list event :=
  if 0 <? String.length (currentProject_of o)
  then [CallConfirmProjectAccess (currentProject_of o)]
  else [].

(** The events that follow a successful enumeration. *)
Definition listing_events (o : ProjectsOptions) (projects : list Project)
    : list event :=
  EvWrite Stdout
    (projects_msg o (currentProject_of o) (currentProjectExists_of o) projects +:+ nl)
  :: (if (0 <? length projects) && negb (DisplayShort o) && currentProjectExists_of o
      then [EvWrite Out (footer_of o)]
      else []).

(** The marker of a line: set on every iteration when the current project
    was confirmed accessible and the mode is verbose, and otherwise left at
    its initial value, the empty string. *)
Definition marker (DisplayShort : bool) (currentProject : string)
    (currentProjectExists : bool) (project : Project) : string :=
  if currentProjectExists && negb DisplayShort
  then (if String.eqb currentProject (Name project) then "  * " else "    ")
  else EmptyString.

(** A project has a distinct display name when the resolved display name is
    neither empty nor its name. *)
Definition distinct_displayName (project : Project) : bool :=
  (0 <? String.length (displayName_of project))
  && negb (String.eqb (displayName_of project) (Name project)).

(** The text one iteration appends to the message; [first] tells the first
    iteration. *)
Definition project_line (DisplayShort : bool) (currentProject : string)
    (currentProjectExists : bool) (first : bool) (project : Project) : string :=
  if distinct_displayName project && negb DisplayShort
  then nl +:+ marker DisplayShort currentProject currentProjectExists project
       +:+ Name project +:+ " - " +:+ displayName_of project
  else (if DisplayShort && first then EmptyString else nl)
       +:+ marker DisplayShort currentProject currentProjectExists project
       +:+ Name project.

(** The entry of a project in the verbose listing: its name, followed by
    [" - "] and the display name when that one is distinct. *)
Definition entry (p : Project) : string :=
  Name p +:+ (if distinct_displayName p
              then " - " +:+ displayName_of p
              else EmptyString).

(** The lines of projects none of which is the current one. *)
Definition unmarked_lines (l : list Project) : string :=
  concat_strings ((λ p, nl +:+ "    " +:+ entry p) <$> l).


(** The sentence that names the sole project ["dev"]. *)
Definition one_project_dev : string :=
  "You have one project on this server: " +:+ dq +:+ "dev" +:+ dq +:+ ".".

End Command.

(** ** A reference implementation of the outside code

    The insertion sort of the Go library, which reads and reorders the data
    through [Len], [Less] and [Swap] only; the quoting of [strconv.Quote] on
    ASCII bytes (bytes above 127 are copied); the display-name key of
    OpenShift and the nickname made of the namespace, the cluster and the
    user.  It shows that the contract of [Externals] can be met and lets the
    command be evaluated on concrete inputs. *)

(** [for j := i; j > 0 && data.Less(j, j-1); j-- { data.Swap(j, j-1) }],
    from [j]; a panic of a method ends the loop. *)
Fixpoint insert_down {T} (data : sort.Interface T) (j : nat) (s : T) : T :=
  match j with
  | O => s
  | S j' =>
      match sort.Less data s (Z.of_nat j) (Z.of_nat j') with
      | Some true =>
          match sort.Swap data s (Z.of_nat j) (Z.of_nat j') with
          | Some s' => insert_down data j' s'
          | None => s
          end
      | _ => s
      end
  end.

(** The outer loop, for the [k] indices from [i] on. *)
Fixpoint insertion_from {T} (data : sort.Interface T) (i k : nat) (s : T) : T :=
  match k with
  | O => s
  | S k' => insertion_from data (S i) k' (insert_down data i s)
  end.

(** [insertionSort(data, 0, data.Len())]. *)
Definition insertionSort {T} (data : sort.Interface T) (s : T) : T :=
  insertion_from data 1 (Z.to_nat (sort.Len data s) - 1) s.

Definition hex_digit (n : nat) : ascii :=
  ascii_of_nat (if n <? 10 then 48 + n else 87 + n).

Definition quote_byte (c : ascii) : string :=
  let n := nat_of_ascii c in
  if plain_byte c then String c EmptyString
  else if n =? 34 then String "092"%char dq
  else if n =? 92 then String "092"%char (String "092"%char EmptyString)
  else if n =? 7 then String "092"%char "a"
  else if n =? 8 then String "092"%char "b"
  else if n =? 12 then String "092"%char "f"
  else if n =? 10 then String "092"%char "n"
  else if n =? 13 then String "092"%char "r"
  else if n =? 9 then String "092"%char "t"
  else if n =? 11 then String "092"%char "v"
  else if n <? 128
       then String "092"%char
              (String "x"%char
                 (String (hex_digit (n / 16)) (String (hex_digit (n mod 16)) EmptyString)))
       else String c EmptyString.

Fixpoint quote_bytes (s : string) : string :=
  match s with
  | EmptyString => EmptyString
  | String c s' => quote_byte c +:+ quote_bytes s'
  end.

Definition ascii_Quote (s : string) : string := dq +:+ quote_bytes s +:+ dq.

(** ** Inputs *)

Definition example_host : rest_Config := mkRestConfig "https://api.example.com:8443".

Definition dev : Project := mkProject "dev" ∅.

Definition alpha : Project := mkProject "alpha" ∅.

Definition beta : Project := mkProject "beta" ∅.

(** A project whose well-known display-name annotation is present with an
    empty value, next to a legacy annotation. *)
Definition legacy_named : Project :=
  mkProject "p1"
    {[ "openshift.io/display-name" := EmptyString; "displayName" := "Legacy" ]}.

(** No active context. *)
Definition no_context : api_Config := mkConfig ∅ EmptyString.

(** An active context named by the user, selecting [namespace]. *)
Definition context_selecting (namespace : string) : api_Config :=
  mkConfig {[ "ctx" := mkContext namespace "cluster" "user" ]} "ctx".

(** An active context that carries its own nickname as its name. *)
Definition default_context_selecting (namespace : string) : api_Config :=
  mkConfig {[ namespace +:+ "/cluster/user" := mkContext namespace "cluster" "user" ]}
           (namespace +:+ "/cluster/user").

Definition accessible : string → option error := λ _, None.

Definition forbidden : string → option error :=
  λ _, Some (StatusError StatusReasonForbidden "forbidden").

(** The current project ["restricted"] is forbidden; one project is listed. *)
Definition forbidden_o : ProjectsOptions :=
  mkProjectsOptions (context_selecting "restricted") example_host
    (mkClients forbidden ([dev], None)) "oc" false.

(** No selection; two projects, verbose mode. *)
Definition unselected_o : ProjectsOptions :=
  mkProjectsOptions no_context example_host
    (mkClients accessible ([beta; alpha], None)) "oc" false.


(** No selection; two projects, one of them [legacy_named]. *)
Definition legacy_o : ProjectsOptions :=
  mkProjectsOptions no_context example_host
    (mkClients accessible ([mkProject "p2" ∅; legacy_named], None)) "oc" false.

(** The sole project ["dev"] is the current project and is accessible. *)
Definition dev_selected_o : ProjectsOptions :=
  mkProjectsOptions (context_selecting "dev") example_host
    (mkClients accessible ([dev], None)) "oc" false.

(** The enumeration fails. *)
Definition unreachable_o : ProjectsOptions :=
  mkProjectsOptions (context_selecting "dev") example_host
    (mkClients accessible ([dev], Some (PlainError "server unreachable"))) "oc" false.

(** Three projects listed out of order; ["b"] is current and accessible, in
    a context that carries its nickname. *)
Definition three_o : ProjectsOptions :=
  mkProjectsOptions (default_context_selecting "b") example_host
    (mkClients accessible
       ([mkProject "c" ∅; mkProject "a" ∅; mkProject "b" ∅], None)) "oc" false.


(** A factory whose every call succeeds. *)
Definition working_factory : Factory :=
  mkFactory (context_selecting "dev", None) (example_host, None)
    (mkClients accessible ([dev], None), None) (λ _, None).

(** A factory whose last call, the one that builds the project client,
    fails. *)
Definition broken_factory : Factory :=
  mkFactory (context_selecting "dev", None) (example_host, None)
    (mkClients accessible ([dev], None), None)
    (λ _, Some (PlainError "no client")).

(** The marker as C2 words it: four characters on every line, also when no
    selection was confirmed accessible. *)
Definition claimed_marker (currentProject : string)
    (currentProjectExists : bool) (p : Project) : string :=
  if currentProjectExists && String.eqb currentProject (Name p)
  then "  * " else "    ".

(** * Part II: properties *)

(** ** The order of names *)

Lemma ltb_lt (s t : string) :
  String.ltb s t = true ↔ OrderedTypeEx.String_as_OT.lt s t.
Proof.
  rewrite <- OrderedTypeEx.String_as_OT.cmp_lt.
  unfold String.ltb, OrderedTypeEx.String_as_OT.cmp.
  destruct (String.compare s t); split; intros E; congruence.
Qed.

Lemma ltb_irrefl (s : string) : String.ltb s s = false.
Proof.
  destruct (String.ltb s s) eqn:E; [|done].
  apply ltb_lt in E.
  by destruct (OrderedTypeEx.String_as_OT.lt_not_eq _ _ E).
Qed.

Lemma ltb_trans (s t u : string) :
  String.ltb s t = true → String.ltb t u = true → String.ltb s u = true.
Proof.
  rewrite !ltb_lt. apply OrderedTypeEx.String_as_OT.lt_trans.
Qed.

Lemma ltb_asym (s t : string) :
  String.ltb s t = true → String.ltb t s = false.
Proof.
  intros Hst. destruct (String.ltb t s) eqn:Hts; [|done].
  pose proof (ltb_trans _ _ _ Hst Hts) as E.
  by rewrite ltb_irrefl in E.
Qed.

Lemma ltb_connex (s t : string) :
  String.ltb s t = false → String.ltb t s = false → s = t.
Proof.
  unfold String.ltb. rewrite (String.compare_antisym t s).
  destruct (String.compare s t) eqn:E; simpl; try done.
  intros _ _. by apply String.compare_eq_iff.
Qed.

(** ** The slice is a valid [sort.Interface] *)

Lemma at_index_Some (p : list Project) (i : Z) (x : Project) :
  SortByProjectName.at_index p i = Some x ↔
  (0 ≤ i < SortByProjectName.Len p)%Z ∧ p !! Z.to_nat i = Some x.
Proof.
  unfold SortByProjectName.at_index, SortByProjectName.Len.
  case_bool_decide as Hi.
  - split; [by intros Hx|by intros [_ Hx]].
  - split; [done|]. by intros [Hi' _].
Qed.

Lemma at_index_is_Some (p : list Project) (i : Z) :
  is_Some (SortByProjectName.at_index p i) ↔ (0 ≤ i < SortByProjectName.Len p)%Z.
Proof.
  unfold SortByProjectName.at_index, SortByProjectName.Len.
  case_bool_decide as Hi.
  - split; [done|]. intros _. apply lookup_lt_is_Some. lia.
  - split; [by intros [? ?]|done].
Qed.

Lemma at_index_insert (p : list Project) (i k : Z) (x : Project) :
  (0 ≤ i < SortByProjectName.Len p)%Z →
  SortByProjectName.at_index (<[Z.to_nat i := x]> p) k =
  if bool_decide (k = i) then Some x else SortByProjectName.at_index p k.
Proof.
  unfold SortByProjectName.at_index, SortByProjectName.Len. intros Hi.
  rewrite length_insert.
  case_bool_decide as Hk; case_bool_decide as E; subst; try done.
  - apply list_lookup_insert_eq. lia.
  - apply list_lookup_insert_ne. lia.
Qed.

Lemma Swap_Some (p p' : list Project) (i j : Z) :
  SortByProjectName.Swap p i j = Some p' →
  ∃ pi pj,
    SortByProjectName.at_index p i = Some pi
    ∧ SortByProjectName.at_index p j = Some pj
    ∧ p' = <[Z.to_nat j := pi]> (<[Z.to_nat i := pj]> p).
Proof.
  unfold SortByProjectName.Swap. intros Hswap.
  destruct (SortByProjectName.at_index p j) as [pj|]; [|done].
  destruct (SortByProjectName.at_index p i) as [pi|]; [|done].
  simpl in Hswap. injection Hswap as <-. by exists pi, pj.
Qed.

Lemma ltb_incomparable (s t u : string) :
  String.ltb s t = false → String.ltb t u = false → String.ltb s u = false.
Proof.
  intros Hst Htu. destruct (String.ltb s u) eqn:Hsu; [|done].
  destruct (String.ltb t s) eqn:Hts.
  - by rewrite (ltb_trans _ _ _ Hts Hsu) in Htu.
  - rewrite (ltb_connex _ _ Hst Hts) in Hsu. congruence.
Qed.

Lemma at_index_of_nat (p : list Project) (i : nat) (x : Project) :
  p !! i = Some x → SortByProjectName.at_index p (Z.of_nat i) = Some x.
Proof.
  intros Hx. apply at_index_Some. rewrite Nat2Z.id. split; [|done].
  apply lookup_lt_Some in Hx. unfold SortByProjectName.Len. lia.
Qed.

(** [Len], [Less] and [Swap] of lines 53 to 61 meet what [sort.Interface]
    demands, for the slice itself as the elements and the order of names. *)
Lemma SortByProjectName_valid :
  Valid SortByProjectName.interface (λ p : list Project, p) Less.
Proof.
  split.
  - intros x. apply ltb_irrefl.
  - intros x y z. apply ltb_trans.
  - intros x y z. apply ltb_incomparable.
  - done.
  - intros s i j x y Hx Hy. simpl. unfold SortByProjectName.Less.
    by rewrite (at_index_of_nat _ _ _ Hx), (at_index_of_nat _ _ _ Hy).
  - intros s i j x y Hx Hy. simpl. unfold SortByProjectName.Swap.
    rewrite (at_index_of_nat _ _ _ Hx), (at_index_of_nat _ _ _ Hy).
    simpl. rewrite !Nat2Z.id. by eexists.
Qed.

(** ** The insertion sort sorts valid data *)

Section InsertionSort.
Context {T A : Type} (data : sort.Interface T) (elems : T → list A)
  (lt : A → A → bool).
Context (V : Valid data elems lt).

Lemma lt_asymmetric (x y : A) : lt x y = true → lt y x = false.
Proof.
  intros Hxy. destruct (lt y x) eqn:Hyx; [|done].
  pose proof (lt_transitive _ _ _ V _ _ _ Hxy Hyx) as E.
  by rewrite (lt_irreflexive _ _ _ V) in E.
Qed.

(** The inner loop takes the element [x] at index [length l1] down into the
    sorted elements before it, past those above it. *)
Lemma insert_down_spec (l1 : list A) : ∀ (x : A) (l2 rest : list A) (s : T),
  elems s = l1 ++ x :: l2 ++ rest →
  StronglySorted (ascending lt) (l1 ++ l2) →
  Forall (λ y, lt x y = true) l2 →
  ∃ m1 m2,
    elems (insert_down data (length l1) s) = m1 ++ x :: m2 ++ rest
    ∧ StronglySorted (ascending lt) (m1 ++ x :: m2)
    ∧ m1 ++ m2 = l1 ++ l2.
Proof.
  induction l1 as [|p l1 IH] using rev_ind; intros x l2 rest s Hs Hsorted Hl2.
  - exists [], l2. simpl. split; [done|]. split; [|done].
    constructor; [done|]. eapply Forall_impl; [exact Hl2|].
    intros y Hy. by apply lt_asymmetric.
  - rewrite length_app. simpl. rewrite Nat.add_1_r. simpl insert_down.
    assert (elems s !! S (length l1) = Some x) as Hx.
    { rewrite Hs. apply list_lookup_middle. rewrite length_app. simpl. lia. }
    assert (elems s !! length l1 = Some p) as Hp.
    { rewrite Hs, <- app_assoc. by apply list_lookup_middle. }
    rewrite (Less_elems _ _ _ V s _ _ _ _ Hx Hp).
    destruct (lt x p) eqn:Hxp.
    + destruct (Swap_elems _ _ _ V s _ _ _ _ Hx Hp) as (s' & -> & Hs').
      assert (elems s' = l1 ++ x :: (p :: l2) ++ rest) as Hs''.
      { rewrite Hs', Hs, <- app_assoc. simpl.
        rewrite (insert_app_r_alt l1 _ (S (length l1))) by lia.
        replace (S (length l1) - length l1) with 1 by lia. simpl.
        rewrite (insert_app_r_alt l1 _ (length l1)) by lia.
        by rewrite Nat.sub_diag. }
      destruct (IH x (p :: l2) rest s' Hs'') as (m1 & m2 & Hm & Hsm & Hperm).
      * by rewrite <- app_assoc in Hsorted.
      * by constructor.
      * exists m1, m2. split; [done|]. split; [done|].
        by rewrite Hperm, <- app_assoc.
    + exists (l1 ++ [p]), l2. split; [done|]. split; [|done].
      apply StronglySorted_app in Hsorted as (Hcross & H1 & H2).
      apply StronglySorted_app. split; [|split].
      * intros a b Ha Hb. apply elem_of_cons in Hb as [->|Hb]; [|by apply Hcross].
        apply elem_of_app in Ha as [Ha|Ha%list_elem_of_singleton].
        -- apply StronglySorted_app in H1 as (Hc1 & _ & _).
           assert (ascending lt a p) as Hap by (apply Hc1; [done|by left]).
           unfold ascending in *. by apply (lt_incomparable _ _ _ V x p a).
        -- by subst.
      * done.
      * constructor; [done|]. eapply Forall_impl; [exact Hl2|].
        intros y Hy. by apply lt_asymmetric.
Qed.

Lemma insertion_from_spec (rest : list A) : ∀ (prefix : list A) (s : T),
  elems s = prefix ++ rest →
  StronglySorted (ascending lt) prefix →
  elems (insertion_from data (length prefix) (length rest) s) ≡ₚ elems s
  ∧ StronglySorted (ascending lt)
      (elems (insertion_from data (length prefix) (length rest) s)).
Proof.
  induction rest as [|x rest IH]; intros prefix s Hs Hsorted.
  - simpl. by rewrite Hs, app_nil_r.
  - simpl.
    destruct (insert_down_spec prefix x [] rest s) as (m1 & m2 & Hm & Hsm & Hperm).
    { done. } { by rewrite app_nil_r. } { done. }
    rewrite app_nil_r in Hperm.
    assert (elems (insert_down data (length prefix) s) = (m1 ++ x :: m2) ++ rest)
      as Hm'.
    { by rewrite Hm, <- app_assoc. }
    assert (S (length prefix) = length (m1 ++ x :: m2)) as ->.
    { rewrite <- Hperm, !length_app. simpl. lia. }
    destruct (IH _ _ Hm' Hsm) as [Hp Hs2]. split; [|done].
    rewrite Hp, Hm, Hs, <- Hperm.
    rewrite <- !app_assoc. f_equiv. simpl. by rewrite <- Permutation_middle.
Qed.

Lemma insertionSort_Permutation (s : T) :
  elems (insertionSort data s) ≡ₚ elems s.
Proof.
  unfold insertionSort. rewrite (Len_elems _ _ _ V), Nat2Z.id.
  destruct (elems s) as [|a rest] eqn:Hs.
  - simpl. by rewrite Hs.
  - simpl. rewrite Nat.sub_0_r.
    destruct (insertion_from_spec rest [a] s) as [Hp _].
    { done. } { repeat constructor. }
    simpl in Hp. by rewrite <- Hs.
Qed.

Lemma insertionSort_sorted (s : T) :
  StronglySorted (ascending lt) (elems (insertionSort data s)).
Proof.
  unfold insertionSort. rewrite (Len_elems _ _ _ V), Nat2Z.id.
  destruct (elems s) as [|a rest] eqn:Hs.
  - simpl. rewrite Hs. constructor.
  - simpl. rewrite Nat.sub_0_r.
    destruct (insertion_from_spec rest [a] s) as [_ Hsorted].
    { done. } { repeat constructor. }
    done.
Qed.

End InsertionSort.

(** ** The reference implementation meets the contract *)

Lemma quote_bytes_plain (s : string) : plain s = true → quote_bytes s = s.
Proof.
  induction s as [|c s IH]; simpl; [done|].
  intros [Hc Hs]%andb_true_iff. unfold quote_byte. rewrite Hc. simpl.
  by rewrite IH.
Qed.

Lemma ascii_Quote_plain (s : string) :
  plain s = true → ascii_Quote s = dq +:+ s +:+ dq.
Proof. intros Hs. unfold ascii_Quote. by rewrite quote_bytes_plain. Qed.

#[global] Instance reference_externals : Externals := {|
  Sort := @insertionSort;
  Sort_Permutation := @insertionSort_Permutation;
  Sort_sorted := @insertionSort_sorted;
  Quote := ascii_Quote;
  Quote_plain := ascii_Quote_plain;
  OpenShiftDisplayName := "openshift.io/display-name";
  GetContextNickname := λ namespace clusterNick userNick,
    namespace +:+ "/" +:+ clusterNick +:+ "/" +:+ userNick
|}.

(** ** The sorted slice

    What the contract of [sort.Sort] gives for the slice of projects, the
    slice being a valid [sort.Interface]. *)

Lemma sort_Sort_Permutation `{Externals} (ps : list Project) :
  sort_Sort ps ≡ₚ ps.
Proof.
  apply (Sort_Permutation _ _ _ (λ p : list Project, p) _ SortByProjectName_valid).
Qed.

Lemma sort_Sort_sorted `{Externals} (ps : list Project) :
  StronglySorted name_le (sort_Sort ps).
Proof.
  apply (Sort_sorted _ _ _ (λ p : list Project, p) _ SortByProjectName_valid).
Qed.

(** ** Strings: append *)

Lemma string_app_nil_r (s : string) : s +:+ EmptyString = s.
Proof. induction s as [|c s IH]; [done|]. cbn. unfold String.append. fold String.append. by rewrite IH. Qed.

Lemma string_app_assoc (s t u : string) : (s +:+ t) +:+ u = s +:+ t +:+ u.
Proof.
  induction s as [|c s IH]; [done|].
  change ((String c s +:+ t) +:+ u) with (String c ((s +:+ t) +:+ u)).
  by rewrite IH.
Qed.

Section Properties.
Context `{Externals}.

(** ** Every run, in closed form *)

(** Unfolds the operations of [M] and splits on the tests [RunProjects]
    makes. *)
Ltac run_step :=
  match goal with
  | |- context [0 <? String.length ?s] => destruct (0 <? String.length s)
  | |- context [ConfirmProjectAccess_answer ?a ?b] =>
      destruct (ConfirmProjectAccess_answer a b)
  | |- context [0 <? length ?l] => destruct (0 <? length l)
  | |- context [DisplayShort ?o] => destruct (DisplayShort o)
  | |- context [String.eqb ?a ?b] => destruct (String.eqb a b)
  end; simpl.

Lemma RunProjects_run (o : ProjectsOptions) :
  run (RunProjects o) =
  match GetProjects_answer (Server o) with
  | (_, Some e) => (Some e, access_events o ++ [CallGetProjects])
  | (projects, None) =>
      (None, access_events o ++ CallGetProjects :: listing_events o projects)
  end.
Proof.
  unfold run, RunProjects, listing_events, access_events, footer_of,
    currentProjectExists_of, defaultContextName_of, currentProject_of.
  unfold mbind, M_bind, mret, M_ret, ConfirmProjectAccess, GetProjects,
    Println, Printf, Fprintf, emit.
  destruct (Contexts (Config o) !! CurrentContext (Config o)) as [c|];
    destruct (GetProjects_answer (Server o)) as [projects [e|]];
    simpl; repeat run_step; reflexivity.
Qed.

Lemma writes_access_events (o : ProjectsOptions) (l : list event) :
  writes (access_events o ++ l) = writes l.
Proof. unfold access_events. by destruct (0 <? _). Qed.

Lemma RunProjects_writes (o : ProjectsOptions) :
  writes (run (RunProjects o)).2 =
  match GetProjects_answer (Server o) with
  | (_, Some _) => []
  | (projects, None) => writes (listing_events o projects)
  end.
Proof.
  rewrite RunProjects_run.
  destruct (GetProjects_answer (Server o)) as [projects [e|]]; simpl;
    by rewrite writes_access_events.
Qed.

(** The error of the access check never reaches the caller: what
    [RunProjects] returns is the error of the enumeration. *)
Lemma RunProjects_error (o : ProjectsOptions) :
  (run (RunProjects o)).1 = (GetProjects_answer (Server o)).2.
Proof.
  rewrite RunProjects_run.
  by destruct (GetProjects_answer (Server o)) as [projects [e|]].
Qed.

(** After a successful enumeration the first write is the message, ended by
    the line feed of [fmt.Println]. *)
Lemma RunProjects_prints (o : ProjectsOptions) (projects : list Project) :
  GetProjects_answer (Server o) = (projects, None) →
  head (writes (run (RunProjects o)).2) =
  Some (Stdout,
        projects_msg o (currentProject_of o) (currentProjectExists_of o) projects
        +:+ nl).
Proof. intros Hg. by rewrite RunProjects_writes, Hg. Qed.

(** [RunProjects] always asks the server for the projects, so a log without
    that call is the log of an invocation that never ran it. *)
Lemma RunProjects_calls_GetProjects (o : ProjectsOptions) :
  CallGetProjects ∈ (run (RunProjects o)).2.
Proof.
  rewrite RunProjects_run.
  destruct (GetProjects_answer (Server o)) as [projects [e|]]; simpl;
    set_solver.
Qed.

(** ** The loop *)

Lemma loop_body_step short cp ex st p :
  (ex && negb short = false → asterisk_of st = EmptyString) →
  loop_body short cp ex st p =
  mkLoop (msg_of st +:+ project_line short cp ex (count_of st =? 0) p)
         (marker short cp ex p) (count_of st + 1).
Proof.
  intros Hast. unfold loop_body, project_line, marker, distinct_displayName,
    displayName_of.
  assert ((count_of st + 1 =? 1) = (count_of st =? 0)) as ->.
  { destruct (count_of st) as [|n]; [done|]. simpl.
    destruct n; done. }
  destruct (ex && negb short) eqn:E.
  - by destruct (_ && _ && negb short), (_ && negb _).
  - rewrite (Hast eq_refl).
    by destruct (_ && _ && negb short), (_ && negb _).
Qed.

Lemma loop_lines short cp ex ps st :
  (ex && negb short = false → asterisk_of st = EmptyString) →
  msg_of (foldl (loop_body short cp ex) st ps) =
  msg_of st +:+ concat_strings
    (imap (λ i p, project_line short cp ex (count_of st + i =? 0) p) ps).
Proof.
  revert st. induction ps as [|p ps IH]; intros st Hast.
  - simpl. by rewrite string_app_nil_r.
  - simpl foldl. rewrite loop_body_step by done.
    rewrite IH.
    + simpl msg_of. rewrite imap_cons, string_app_assoc.
      change (concat_strings (?a :: ?l)) with (a +:+ concat_strings l).
      rewrite Nat.add_0_r. do 3 f_equal.
      apply imap_ext. intros i q _. simpl. do 2 f_equal. lia.
    + simpl. intros E. unfold marker. by rewrite E.
Qed.

(** The message for two or more projects: the header in verbose mode, then
    one piece of text per project, in the order [sort.Sort] leaves them. *)
Lemma projects_msg_listing (o : ProjectsOptions) cp ex (ps : list Project) :
  2 ≤ length ps →
  projects_msg o cp ex ps =
  (if DisplayShort o then EmptyString else header (CommandName o))
  +:+ concat_strings
        (imap (λ i p, project_line (DisplayShort o) cp ex (i =? 0) p)
              (sort_Sort ps)).
Proof.
  intros Hlen. destruct ps as [|p1 [|p2 ps]]; simpl in Hlen; [lia..|].
  unfold projects_msg. rewrite loop_lines by done. simpl.
  by destruct (DisplayShort o).
Qed.

Lemma project_line_verbose cp ex first (p : Project) :
  project_line false cp ex first p =
  nl +:+ (if ex
          then (if String.eqb cp (Name p) then "  * " else "    ")
          else EmptyString)
     +:+ Name p
     +:+ (if distinct_displayName p
          then " - " +:+ displayName_of p
          else EmptyString).
Proof.
  unfold project_line, marker. rewrite !andb_true_r.
  destruct (distinct_displayName p); [done|].
  by rewrite string_app_nil_r.
Qed.

(** ** The order of the listing *)

Lemma sorted_strict (l : list Project) :
  StronglySorted name_le l → NoDup (Name <$> l) → StronglySorted name_lt l.
Proof.
  induction 1 as [|p l Hl IH Hp]; intros Hnd; [constructor|].
  rewrite fmap_cons in Hnd. apply NoDup_cons in Hnd as [Hp' Hnd].
  constructor; [by apply IH|].
  rewrite Forall_forall in Hp |- *. intros q Hq.
  specialize (Hp q Hq). unfold name_le, name_lt, Less in *.
  destruct (String.ltb (Name p) (Name q)) eqn:E; [done|].
  destruct Hp'. rewrite (ltb_connex _ _ E Hp).
  by apply list_elem_of_fmap_2.
Qed.




(** ** Display names *)

Lemma displayName_of_preferred (p : Project) (v : string) :
  Annotations p !! OpenShiftDisplayName = Some v →
  v ≠ EmptyString →
  displayName_of p = v.
Proof.
  intros Hv Hne. unfold displayName_of, map_index. rewrite Hv. simpl.
  by destruct v.
Qed.

Lemma displayName_of_legacy (p : Project) :
  Annotations p !! OpenShiftDisplayName = None
  ∨ Annotations p !! OpenShiftDisplayName = Some EmptyString →
  displayName_of p = map_index (Annotations p) "displayName".
Proof.
  unfold displayName_of, map_index. by intros [-> | ->].
Qed.

Lemma distinct_displayName_false (p : Project) :
  distinct_displayName p = false ↔
  displayName_of p = EmptyString ∨ displayName_of p = Name p.
Proof.
  unfold distinct_displayName.
  destruct (String.eqb_spec (displayName_of p) (Name p)) as [E|E];
    destruct (displayName_of p) as [|c d] eqn:Ed; simpl.
  - split; auto.
  - split; auto.
  - split; auto.
  - split; [done|]. intros [E'|E']; [discriminate|done].
Qed.

Lemma DisplayNameAndNameForProject_plain (p : Project) :
  distinct_displayName p = false → DisplayNameAndNameForProject p = Name p.
Proof.
  unfold distinct_displayName, DisplayNameAndNameForProject. by intros ->.
Qed.

(** ** Footers *)

Lemma length_pos (s : string) :
  s ≠ EmptyString → (0 <? String.length s) = true.
Proof. by destruct s. Qed.

Lemma short_footer_ne_long_footer (cp ctx host : string) :
  short_footer cp host ≠ long_footer cp ctx host.
Proof.
  unfold short_footer, long_footer. intros E.
  do 3 apply (inj (String.app _)) in E.
  apply (f_equal (String.get 1)) in E. vm_compute in E. discriminate.
Qed.

(** ** The claims *)

(** C7: when the enumeration fails, [RunProjects] writes nothing, neither
    the message nor any part of the slice that came with the error, and
    returns the error of the enumeration unchanged. *)
Theorem enumeration_error_verbatim (o : ProjectsOptions)
    (projects : list Project) (e : error) :
  GetProjects_answer (Server o) = (projects, Some e) →
  (run (RunProjects o)).1 = Some e ∧ writes (run (RunProjects o)).2 = [].
Proof.
  intros Hg. split.
  - by rewrite RunProjects_error, Hg.
  - by rewrite RunProjects_writes, Hg.
Qed.

(** C10: with no current project (no active context, or an active context
    whose namespace is empty), a successful enumeration of a non-empty set
    in verbose mode leads to exactly two events, the enumeration call and
    the printing of the project list: the access check is not called,
    neither advisory nor footer is written, and the returned error is [nil].
    The list printed is, for one project, the sentence that names it in
    quotes (in the display form of [DisplayNameAndNameForProject]) and, for
    two or more, the header followed for each project, in sorted order, by
    a line feed and the name of the project, with [" - "] and the display
    name after it when that one is distinct, and with no marker before
    it. *)
Theorem no_selection_listing (o : ProjectsOptions) (projects : list Project) :
  (Contexts (Config o) !! CurrentContext (Config o) = None
   ∨ ∃ c, Contexts (Config o) !! CurrentContext (Config o) = Some c
          ∧ Namespace c = EmptyString) →
  GetProjects_answer (Server o) = (projects, None) →
  projects ≠ [] →
  DisplayShort o = false →
  run (RunProjects o) =
  (None,
   [CallGetProjects;
    EvWrite Stdout
      (match projects with
       | [project] =>
           "You have one project on this server: "
           +:+ Quote (DisplayNameAndNameForProject project) +:+ "."
       | _ =>
           ("You have access to the following projects and can switch between them with '"
            +:+ CommandName o +:+ " project <projectname>':" +:+ nl)
           +:+ concat_strings
                 ((λ p, nl +:+ Name p
                           +:+ (if distinct_displayName p
                                then " - " +:+ displayName_of p
                                else EmptyString))
                  <$> sort_Sort projects)
       end
       +:+ nl)]).
Proof.
  intros Hsel Hg Hne Hv.
  assert (currentProject_of o = EmptyString) as Hcp.
  { unfold currentProject_of. by destruct Hsel as [->|(c & -> & ->)]. }
  rewrite RunProjects_run, Hg.
  unfold access_events, listing_events, currentProjectExists_of.
  rewrite Hcp. simpl. rewrite andb_false_r. do 4 f_equal.
  destruct projects as [|p1 [|p2 ps]]; [done| |].
  - unfold projects_msg. by rewrite Hv.
  - rewrite projects_msg_listing by (simpl; lia). rewrite Hv.
    assert (∀ l : list Project,
              imap (λ i p, project_line false EmptyString false (i =? 0) p) l
              = (λ p, nl +:+ Name p
                         +:+ (if distinct_displayName p
                              then " - " +:+ displayName_of p
                              else EmptyString)) <$> l) as Hlines.
    { intros l. rewrite <- imap_const. apply imap_ext. intros i p _.
      by rewrite project_line_verbose. }
    by rewrite Hlines.
Qed.


(** C9: in verbose mode, with a non-empty project set and a current project
    confirmed accessible, the message is followed by exactly one more write,
    the footer, which states the current project and the host of the server:
    a line feed, then [Using project P on server H.] in the short form and
    [Using project P from context named C on server H.] in the long form,
    then a line feed, where [P], [C] and [H] are the current project, the
    name of the active context and the host as [%q] renders them (between
    double quotes when they consist of plain bytes).  The footer has the
    short form exactly when the name of the active context equals the
    nickname computed from its namespace, cluster and user, and the long
    form exactly when it does not.  No error is returned. *)
Theorem footer_form (o : ProjectsOptions) (c : api_Context)
    (projects : list Project) :
  DisplayShort o = false →
  GetProjects_answer (Server o) = (projects, None) →
  projects ≠ [] →
  Contexts (Config o) !! CurrentContext (Config o) = Some c →
  Namespace c ≠ EmptyString →
  ConfirmProjectAccess_answer (Server o) (Namespace c) = None →
  let nickname := GetContextNickname (Namespace c) (Cluster c) (AuthInfo c) in
  let short_form :=
    nl +:+ "Using project " +:+ Quote (Namespace c)
       +:+ " on server " +:+ Quote (Host (ClientConfig o)) +:+ "." +:+ nl in
  let long_form :=
    nl +:+ "Using project " +:+ Quote (Namespace c)
       +:+ " from context named " +:+ Quote (CurrentContext (Config o))
       +:+ " on server " +:+ Quote (Host (ClientConfig o)) +:+ "." +:+ nl in
  ∃ footer,
    writes (run (RunProjects o)).2 =
      [(Stdout, projects_msg o (Namespace c) true projects +:+ nl); (Out, footer)]
    ∧ (footer = short_form ↔ CurrentContext (Config o) = nickname)
    ∧ (footer = long_form ↔ CurrentContext (Config o) ≠ nickname)
    ∧ (plain (Namespace c) = true → plain (Host (ClientConfig o)) = true →
       short_form =
       nl +:+ "Using project " +:+ dq +:+ Namespace c +:+ dq
          +:+ " on server " +:+ dq +:+ Host (ClientConfig o) +:+ dq +:+ "." +:+ nl)
    ∧ (plain (Namespace c) = true → plain (CurrentContext (Config o)) = true →
       plain (Host (ClientConfig o)) = true →
       long_form =
       nl +:+ "Using project " +:+ dq +:+ Namespace c +:+ dq
          +:+ " from context named " +:+ dq +:+ CurrentContext (Config o) +:+ dq
          +:+ " on server " +:+ dq +:+ Host (ClientConfig o) +:+ dq +:+ "." +:+ nl)
    ∧ (run (RunProjects o)).1 = None.
Proof.
  intros Hv Hg Hne Hctx Hns Hok nickname short_form long_form.
  assert (currentProject_of o = Namespace c) as Hcp.
  { unfold currentProject_of. by rewrite Hctx. }
  assert (currentProjectExists_of o = true) as Hex.
  { unfold currentProjectExists_of. by rewrite Hcp, Hok, length_pos. }
  assert (defaultContextName_of o = nickname) as Hnick.
  { unfold defaultContextName_of. by rewrite Hctx. }
  exists (footer_of o). split; [|split; [|split; [|split; [|split]]]].
  - rewrite RunProjects_writes, Hg. unfold listing_events.
    rewrite Hcp, Hex, Hv. by destruct projects.
  - unfold footer_of. rewrite Hcp, Hnick.
    destruct (String.eqb_spec (CurrentContext (Config o)) nickname) as [E|E].
    + done.
    + split; [|done]. intros E'. symmetry in E'.
      by apply short_footer_ne_long_footer in E'.
  - unfold footer_of. rewrite Hcp, Hnick.
    destruct (String.eqb_spec (CurrentContext (Config o)) nickname) as [E|E].
    + split; [|done]. intros E'.
      by apply short_footer_ne_long_footer in E'.
    + done.
  - intros Hp Hh. unfold short_form.
    by rewrite (Quote_plain _ Hp), (Quote_plain _ Hh), !string_app_assoc.
  - intros Hp Hc Hh. unfold long_form.
    by rewrite (Quote_plain _ Hp), (Quote_plain _ Hc), (Quote_plain _ Hh),
      !string_app_assoc.
  - by rewrite RunProjects_error, Hg.
Qed.

(** C8, amended: when one or more positional arguments are passed,
    [Validate] returns the error "no arguments should be passed"; the
    invocation ends with an empty log, so that no call reached the server,
    nothing was written and [RunProjects] was not run; and it ends on the
    validation error whenever [Complete], which comes first, succeeded, and
    on the error of [Complete], as a usage error, otherwise. *)
Theorem arguments_rejected_before_any_call (f : Factory) (fullName : string)
    (short : bool) (args : list string) :
  0 < length args →
  Validate args = Some (PlainError "no arguments should be passed")
  ∧ (run (Run f fullName short args)).2 = []
  ∧ (run (Run f fullName short args)).1 =
      match Complete f fullName short with
      | inl _ => Fatal (PlainError "no arguments should be passed")
      | inr e => FatalUsage e
      end
  ∧ ∀ o, CallGetProjects ∈ (run (RunProjects o)).2.
Proof.
  intros Hargs.
  assert (Validate args = Some (PlainError "no arguments should be passed")) as Hv.
  { unfold Validate. destruct args; [simpl in Hargs; lia|done]. }
  split; [done|]. unfold Run. rewrite Hv.
  split; [|split].
  - by destruct (Complete f fullName short).
  - by destruct (Complete f fullName short).
  - apply RunProjects_calls_GetProjects.
Qed.


(** C2, amended: for two or more projects in verbose mode, the message is
    the header followed, for each project in sorted order, by a line feed, a
    marker and the entry of the project.  When the current project was
    confirmed accessible the marker has four characters, ["  * "] for the
    current project and four spaces for every other one; when no current
    project was confirmed accessible the marker is empty, and the line
    starts with the name. *)
Theorem listing_markers (o : ProjectsOptions) (ps : list Project) :
  DisplayShort o = false →
  GetProjects_answer (Server o) = (ps, None) →
  2 ≤ length ps →
  head (writes (run (RunProjects o)).2) =
  Some (Stdout,
        (header (CommandName o)
         +:+ concat_strings
               ((λ p, nl +:+ (if currentProjectExists_of o
                              then (if String.eqb (currentProject_of o) (Name p)
                                    then "  * " else "    ")
                              else EmptyString)
                         +:+ Name p
                         +:+ (if distinct_displayName p
                              then " - " +:+ displayName_of p
                              else EmptyString))
                <$> sort_Sort ps))
        +:+ nl).
Proof.
  intros Hv Hg Hlen.
  rewrite RunProjects_writes, Hg. unfold listing_events. simpl.
  rewrite projects_msg_listing by done. rewrite Hv.
  do 4 f_equal. rewrite <- imap_const. f_equal. apply imap_ext.
  intros i p _. apply project_line_verbose.
Qed.

(** C5, amended: the display name of a project is the value of the
    well-known display-name annotation when that annotation is present with
    a non-empty value; when it is absent, or present with an empty value,
    it is the value of the annotation ["displayName"], empty when that one
    is absent too.  In the listing of two or more projects a project is
    rendered by its bare name (after the line break and the marker) when the
    resolved display name is empty, equals the name, or the mode is short,
    and by its name, [" - "] and the display name otherwise. *)
Theorem displayName_precedence (o : ProjectsOptions) (p : Project) :
  (∀ v, Annotations p !! OpenShiftDisplayName = Some v → v ≠ EmptyString →
        displayName_of p = v)
  ∧ (Annotations p !! OpenShiftDisplayName = None
     ∨ Annotations p !! OpenShiftDisplayName = Some EmptyString →
     displayName_of p = map_index (Annotations p) "displayName")
  ∧ (Annotations p !! OpenShiftDisplayName = None →
     Annotations p !! "displayName" = None →
     displayName_of p = EmptyString)
  ∧ (∀ cp ex first,
       displayName_of p = EmptyString ∨ displayName_of p = Name p
       ∨ DisplayShort o = true →
       project_line (DisplayShort o) cp ex first p =
       (if DisplayShort o && first then EmptyString else nl)
       +:+ marker (DisplayShort o) cp ex p +:+ Name p)
  ∧ (∀ cp ex first,
       displayName_of p ≠ EmptyString → displayName_of p ≠ Name p →
       DisplayShort o = false →
       project_line (DisplayShort o) cp ex first p =
       nl +:+ marker (DisplayShort o) cp ex p +:+ Name p
          +:+ " - " +:+ displayName_of p)
  ∧ (∀ ps,
       2 ≤ length ps →
       GetProjects_answer (Server o) = (ps, None) →
       head (writes (run (RunProjects o)).2) =
       Some (Stdout,
             ((if DisplayShort o then EmptyString else header (CommandName o))
              +:+ concat_strings
                    (imap (λ i q, project_line (DisplayShort o) (currentProject_of o)
                                    (currentProjectExists_of o) (i =? 0) q)
                          (sort_Sort ps)))
             +:+ nl)).
Proof.
  split; [|split; [|split; [|split; [|split]]]].
  - apply displayName_of_preferred.
  - apply displayName_of_legacy.
  - intros Ha Hl. rewrite displayName_of_legacy by auto.
    unfold map_index. by rewrite Hl.
  - intros cp ex first Hcase. unfold project_line.
    assert (distinct_displayName p && negb (DisplayShort o) = false) as ->; [|done].
    destruct Hcase as [E|[E|E]].
    + assert (distinct_displayName p = false) as ->; [|done].
      apply distinct_displayName_false. auto.
    + assert (distinct_displayName p = false) as ->; [|done].
      apply distinct_displayName_false. auto.
    + rewrite E. apply andb_false_r.
  - intros cp ex first Hne Hname Hv. unfold project_line.
    assert (distinct_displayName p = true) as ->.
    { destruct (distinct_displayName p) eqn:E; [done|].
      apply distinct_displayName_false in E. by destruct E. }
    by rewrite Hv.
  - intros ps Hlen Hg. rewrite (RunProjects_prints o ps Hg).
    by rewrite projects_msg_listing.
Qed.

(** C6, amended: when the only project is named ["dev"] and has no distinct
    display name, the first thing written is, in verbose mode, the sentence
    [You have one project on this server: "dev".] and, in short mode, the
    bare name, each ended by the line feed of [fmt.Println].  In short mode
    nothing else is written.  In verbose mode the footer follows when the
    current project was confirmed accessible, and nothing follows when it
    was not.  No error is returned. *)
Theorem sole_project_dev (o : ProjectsOptions) (p : Project) :
  Name p = "dev" →
  distinct_displayName p = false →
  GetProjects_answer (Server o) = ([p], None) →
  (run (RunProjects o)).1 = None
  ∧ writes (run (RunProjects o)).2 =
    if DisplayShort o
    then [(Stdout, "dev" +:+ nl)]
    else (Stdout, one_project_dev +:+ nl)
         :: (if currentProjectExists_of o then [(Out, footer_of o)] else []).
Proof.
  intros Hname Hplain Hg. split.
  - by rewrite RunProjects_error, Hg.
  - rewrite RunProjects_writes, Hg. unfold listing_events, projects_msg.
    rewrite DisplayNameAndNameForProject_plain, Hname by done.
    rewrite (Quote_plain "dev") by done. simpl.
    destruct (DisplayShort o); [done|]. simpl.
    by destruct (currentProjectExists_of o).
Qed.

(** Whatever the access check answers, a successful enumeration makes
    [RunProjects] return [nil], and the advisory is never written: after the
    message comes the footer or nothing. *)
Lemma access_error_never_surfaces (o : ProjectsOptions)
    (projects : list Project) :
  GetProjects_answer (Server o) = (projects, None) →
  (run (RunProjects o)).1 = None
  ∧ ∃ rest, writes (run (RunProjects o)).2 =
      (Stdout, projects_msg o (currentProject_of o) (currentProjectExists_of o)
                 projects +:+ nl) :: rest
      ∧ (rest = [] ∨ rest = [(Out, footer_of o)]).
Proof.
  intros Hg. split; [by rewrite RunProjects_error, Hg|].
  rewrite RunProjects_writes, Hg. unfold listing_events. simpl.
  destruct (_ && _ && _); eauto.
Qed.

End Properties.

(** ** Concrete runs

    The inputs of Part I, evaluated with [reference_externals]. *)

(** C1: the current project is selected and the access check answers with a
    Forbidden error; one project is listed, in verbose mode.  The run calls
    the access check and the enumeration and prints the sentence for one
    project and nothing else: no advisory is written and the returned error
    is [nil], where the claim has the advisory and a non-nil error. *)
Theorem forbidden_access_unreported :
  IsForbidden (ConfirmProjectAccess_answer (Server forbidden_o)
                 (currentProject_of forbidden_o)) = true
  ∧ run (RunProjects forbidden_o) =
    (None, [CallConfirmProjectAccess "restricted"; CallGetProjects;
            EvWrite Stdout (one_project_dev +:+ nl)]).
Proof. split; vm_compute; reflexivity. Qed.

(** C2, counterexample: two projects, verbose mode, no current project.  The
    lines of the two projects are their bare names; the message is not the
    one in which every line carries a marker of four characters. *)
Lemma lines_unmarked_without_selection :
  lines (output (run (RunProjects unselected_o)).2) =
    ["You have access to the following projects and can switch between them with 'oc project <projectname>':";
     EmptyString; "alpha"; "beta"; EmptyString]
  ∧ head (writes (run (RunProjects unselected_o)).2) ≠
    Some (Stdout,
          (header "oc"
           +:+ concat_strings
                 ((λ p, nl +:+ claimed_marker EmptyString false p +:+ Name p)
                  <$> [alpha; beta]))
          +:+ nl).
Proof. split; [vm_compute; reflexivity|]. vm_compute. discriminate. Qed.


(** C8, counterexample: one positional argument and a factory whose last
    call fails.  [Validate] would return its error, but the invocation ends
    before it is called, on the error of [Complete] as a usage error: no
    validation error is reported. *)
Lemma usage_error_precedes_validation :
  Validate ["extra"] = Some (PlainError "no arguments should be passed")
  ∧ run (Run broken_factory "oc" false ["extra"])
    = (FatalUsage (PlainError "no client"), [])
  ∧ (run (Run broken_factory "oc" false ["extra"])).1
    ≠ Fatal (PlainError "no arguments should be passed").
Proof. split; [reflexivity|]. split; [vm_compute; reflexivity|]. vm_compute. discriminate. Qed.

(** C5, counterexample: the well-known annotation of ["p1"] is present, with
    an empty value, and the legacy annotation holds ["Legacy"].  The
    well-known annotation does not win: the display name is the legacy one
    and the project is rendered with it, not by its bare name. *)
Lemma present_empty_annotation_does_not_win :
  Annotations legacy_named !! OpenShiftDisplayName = Some EmptyString
  ∧ Annotations legacy_named !! "displayName" = Some "Legacy"
  ∧ displayName_of legacy_named = "Legacy"
  ∧ lines (output (run (RunProjects legacy_o)).2) =
    ["You have access to the following projects and can switch between them with 'oc project <projectname>':";
     EmptyString; "p1 - Legacy"; "p2"; EmptyString].
Proof. repeat split; vm_compute; reflexivity. Qed.

(** C6, counterexample: the sole project ["dev"] is the current project and
    is accessible, in verbose mode.  The sentence is written, and the footer
    after it: the output is more than the sentence. *)
Lemma sole_project_followed_by_footer :
  writes (run (RunProjects dev_selected_o)).2 =
    [(Stdout, one_project_dev +:+ nl);
     (Out, long_footer "dev" "ctx" "https://api.example.com:8443")]
  ∧ output (run (RunProjects dev_selected_o)).2 ≠ one_project_dev
  ∧ output (run (RunProjects dev_selected_o)).2 ≠ one_project_dev +:+ nl.
Proof. split; [vm_compute; reflexivity|]. split; vm_compute; discriminate. Qed.

(** The three projects [c], [a], [b] with [b] current and accessible: the
    rendered order is [a], [b], [c] and the line of [b] alone carries the
    marker ["  * "]. *)
Example three_projects_rendered :
  lines (output (run (RunProjects three_o)).2) =
    ["You have access to the following projects and can switch between them with 'oc project <projectname>':";
     EmptyString; "    a"; "  * b"; "    c"; EmptyString;
     "Using project " +:+ dq +:+ "b" +:+ dq +:+ " on server " +:+ dq
       +:+ "https://api.example.com:8443" +:+ dq +:+ ".";
     EmptyString].
Proof. vm_compute. reflexivity. Qed.

(** ** The theorems at concrete inputs *)

(** C7 at [unreachable_o]. *)
Lemma enumeration_error_verbatim_at_unreachable :
  (run (RunProjects unreachable_o)).1 = Some (PlainError "server unreachable")
  ∧ writes (run (RunProjects unreachable_o)).2 = [].
Proof.
  apply (enumeration_error_verbatim unreachable_o [dev]). reflexivity.
Defined.

(** C10 at [unselected_o]: the two projects, sorted, without marker. *)
Lemma no_selection_listing_at_unselected :
  run (RunProjects unselected_o) =
  (None,
   [CallGetProjects;
    EvWrite Stdout
      ("You have access to the following projects and can switch between them with 'oc project <projectname>':"
       +:+ nl +:+ nl +:+ "alpha" +:+ nl +:+ "beta" +:+ nl)]).
Proof.
  refine (no_selection_listing unselected_o [beta; alpha] _ _ _ _).
  - left. reflexivity.
  - reflexivity.
  - discriminate.
  - reflexivity.
Defined.


(** C9 at [three_o], whose context carries its nickname: the short form. *)
Lemma footer_form_at_three :
  let short_form :=
    nl +:+ "Using project " +:+ dq +:+ "b" +:+ dq
       +:+ " on server " +:+ dq +:+ "https://api.example.com:8443" +:+ dq
       +:+ "." +:+ nl in
  let long_form :=
    nl +:+ "Using project " +:+ dq +:+ "b" +:+ dq
       +:+ " from context named " +:+ dq +:+ "b/cluster/user" +:+ dq
       +:+ " on server " +:+ dq +:+ "https://api.example.com:8443" +:+ dq
       +:+ "." +:+ nl in
  ∃ footer,
    writes (run (RunProjects three_o)).2 =
      [(Stdout, projects_msg three_o "b" true
                  [mkProject "c" ∅; mkProject "a" ∅; mkProject "b" ∅] +:+ nl);
       (Out, footer)]
    ∧ (footer = short_form ↔ CurrentContext (Config three_o) = "b/cluster/user")
    ∧ (footer = long_form ↔ CurrentContext (Config three_o) ≠ "b/cluster/user")
    ∧ (plain "b" = true → plain "https://api.example.com:8443" = true →
       short_form = short_form)
    ∧ (plain "b" = true → plain "b/cluster/user" = true →
       plain "https://api.example.com:8443" = true →
       long_form = long_form)
    ∧ (run (RunProjects three_o)).1 = None.
Proof.
  refine (footer_form three_o (mkContext "b" "cluster" "user")
            [mkProject "c" ∅; mkProject "a" ∅; mkProject "b" ∅] _ _ _ _ _ _).
  - reflexivity.
  - reflexivity.
  - discriminate.
  - vm_compute. reflexivity.
  - discriminate.
  - reflexivity.
Defined.

(** C8 at one positional argument. *)
Lemma arguments_rejected_at_one_argument :
  Validate ["extra"] = Some (PlainError "no arguments should be passed")
  ∧ (run (Run working_factory "oc" false ["extra"])).2 = []
  ∧ (run (Run working_factory "oc" false ["extra"])).1 =
      match Complete working_factory "oc" false with
      | inl _ => Fatal (PlainError "no arguments should be passed")
      | inr e => FatalUsage e
      end
  ∧ ∀ o, CallGetProjects ∈ (run (RunProjects o)).2.
Proof.
  apply (arguments_rejected_before_any_call working_factory "oc" false ["extra"]).
  simpl. lia.
Defined.


(** C2 at [three_o]. *)
Lemma listing_markers_at_three :
  head (writes (run (RunProjects three_o)).2) =
  Some (Stdout,
        (header (CommandName three_o)
         +:+ concat_strings
               ((λ p, nl +:+ (if currentProjectExists_of three_o
                              then (if String.eqb (currentProject_of three_o) (Name p)
                                    then "  * " else "    ")
                              else EmptyString)
                         +:+ Name p
                         +:+ (if distinct_displayName p
                              then " - " +:+ displayName_of p
                              else EmptyString))
                <$> sort_Sort [mkProject "c" ∅; mkProject "a" ∅; mkProject "b" ∅]))
        +:+ nl).
Proof.
  apply (listing_markers three_o
           [mkProject "c" ∅; mkProject "a" ∅; mkProject "b" ∅]).
  - reflexivity.
  - reflexivity.
  - simpl. lia.
Defined.

(** C6 at [dev_selected_o]. *)
Lemma sole_project_dev_at_dev_selected :
  (run (RunProjects dev_selected_o)).1 = None
  ∧ writes (run (RunProjects dev_selected_o)).2 =
    if DisplayShort dev_selected_o
    then [(Stdout, "dev" +:+ nl)]
    else (Stdout, one_project_dev +:+ nl)
         :: (if currentProjectExists_of dev_selected_o
             then [(Out, footer_of dev_selected_o)] else []).
Proof.
  apply (sole_project_dev dev_selected_o dev).
  - reflexivity.
  - vm_compute. reflexivity.
  - reflexivity.
Defined.

(** * Part III: further properties *)

(** ** The slice as a [sort.Interface] *)

Lemma swap_back (l : list Project) (a b : nat) (x y : Project) :
  l !! a = Some x → l !! b = Some y →
  <[b := y]> (<[a := x]> (<[b := x]> (<[a := y]> l))) = l.
Proof.
  intros Ha Hb.
  pose proof (lookup_lt_Some _ _ _ Ha). pose proof (lookup_lt_Some _ _ _ Hb).
  apply list_eq. intros k.
  rewrite !list_lookup_insert, !length_insert.
  repeat case_decide; destruct_and?; subst; try done; try lia.
Qed.

Lemma Swap_effect (p p' : list Project) (i j : Z) :
  SortByProjectName.Swap p i j = Some p' →
  SortByProjectName.Len p' = SortByProjectName.Len p
  ∧ SortByProjectName.at_index p' i = SortByProjectName.at_index p j
  ∧ SortByProjectName.at_index p' j = SortByProjectName.at_index p i
  ∧ ∀ k, k ≠ i → k ≠ j →
      SortByProjectName.at_index p' k = SortByProjectName.at_index p k.
Proof.
  intros (pi & pj & Hi & Hj & ->)%Swap_Some.
  pose proof (proj1 (at_index_Some _ _ _) Hi) as [Hi1 Hi2].
  pose proof (proj1 (at_index_Some _ _ _) Hj) as [Hj1 Hj2].
  assert (0 ≤ j < SortByProjectName.Len (<[Z.to_nat i := pj]> p))%Z as Hj3.
  { unfold SortByProjectName.Len in *. by rewrite length_insert. }
  split; [|split; [|split]].
  - unfold SortByProjectName.Len. by rewrite !length_insert.
  - rewrite at_index_insert by done. case_bool_decide as E.
    + subst. rewrite Hi2 in Hj2. injection Hj2 as ->. by rewrite Hi.
    + rewrite at_index_insert by done.
      by rewrite bool_decide_eq_true_2, Hj by done.
  - rewrite at_index_insert by done.
    by rewrite bool_decide_eq_true_2, Hi by done.
  - intros k Hki Hkj. rewrite !at_index_insert by done.
    by rewrite !bool_decide_eq_false_2 by done.
Qed.

(** [Swap] runs without panic exactly when both indices are within the
    slice; it then keeps the length, puts at each of the two indices the
    element that was at the other one, and leaves every other index as it
    was. *)
Theorem Swap_exchanges (p : list Project) (i j : Z) :
  (is_Some (SortByProjectName.Swap p i j) ↔
   (0 ≤ i < SortByProjectName.Len p)%Z ∧ (0 ≤ j < SortByProjectName.Len p)%Z)
  ∧ ∀ p', SortByProjectName.Swap p i j = Some p' →
      SortByProjectName.Len p' = SortByProjectName.Len p
      ∧ SortByProjectName.at_index p' i = SortByProjectName.at_index p j
      ∧ SortByProjectName.at_index p' j = SortByProjectName.at_index p i
      ∧ ∀ k, k ≠ i → k ≠ j →
          SortByProjectName.at_index p' k = SortByProjectName.at_index p k.
Proof.
  split.
  - rewrite <- !at_index_is_Some. unfold SortByProjectName.Swap.
    destruct (SortByProjectName.at_index p j) as [pj|],
             (SortByProjectName.at_index p i) as [pi|]; simpl;
      split; try done; intros Hboth; by destruct Hboth as [[? ?] [? ?]].
  - intros p'. apply Swap_effect.
Qed.

(** [Swap] rearranges and loses nothing: the slice it leaves is a
    permutation of the one it was given; swapping the same two indices once
    more restores the original slice; and the order of the two indices does
    not matter. *)
Theorem Swap_permutes (p p' : list Project) (i j : Z) :
  SortByProjectName.Swap p i j = Some p' →
  p' ≡ₚ p
  ∧ SortByProjectName.Swap p' i j = Some p
  ∧ SortByProjectName.Swap p j i = Some p'.
Proof.
  intros Hswap.
  destruct (Swap_effect _ _ _ _ Hswap) as (_ & Hi' & Hj' & _).
  destruct (Swap_Some _ _ _ _ Hswap) as (pi & pj & Hi & Hj & ->).
  pose proof (proj1 (at_index_Some _ _ _) Hi) as [Hi1 Hi2].
  pose proof (proj1 (at_index_Some _ _ _) Hj) as [Hj1 Hj2].
  split; [|split].
  - by apply Permutation_insert_swap.
  - unfold SortByProjectName.Swap. rewrite Hj', Hi', Hi, Hj. simpl.
    f_equal. by apply swap_back.
  - unfold SortByProjectName.Swap. rewrite Hi, Hj. simpl. f_equal.
    rewrite (list_insert_insert _ (Z.to_nat i) (Z.to_nat j)).
    case_decide as E; [|done].
    rewrite E in *. rewrite Hi2 in Hj2. injection Hj2 as ->.
    by rewrite list_insert_insert_eq.
Qed.

Lemma StronglySorted_lookup_lt {A} (R : relation A) (l : list A) (i j : nat) (x y : A) :
  StronglySorted R l → l !! i = Some x → l !! j = Some y → i < j → R x y.
Proof.
  intros Hl. revert i j. induction Hl as [|z l Hl IH Hz]; intros i j Hi Hj Hij.
  - done.
  - destruct j as [|j]; [lia|]. simpl in Hj. destruct i as [|i]; simpl in Hi.
    + injection Hi as ->. rewrite Forall_forall in Hz.
      apply Hz. by eapply list_elem_of_lookup_2.
    + apply (IH i j); [done..|lia].
Qed.

(** [Less] runs without panic exactly when both indices are within the
    slice, and it is a strict order of the kind [sort.Sort] requires: no
    element is less than itself, two elements are never less than each
    other, the relation is transitive, and two elements neither of which is
    less than the other have the same name. *)
Theorem Less_strict_order (p : list Project) :
  (∀ i j, is_Some (SortByProjectName.Less p i j) ↔
          (0 ≤ i < SortByProjectName.Len p)%Z ∧ (0 ≤ j < SortByProjectName.Len p)%Z)
  ∧ (∀ i, SortByProjectName.Less p i i ≠ Some true)
  ∧ (∀ i j, SortByProjectName.Less p i j = Some true →
            SortByProjectName.Less p j i = Some false)
  ∧ (∀ i j k, SortByProjectName.Less p i j = Some true →
              SortByProjectName.Less p j k = Some true →
              SortByProjectName.Less p i k = Some true)
  ∧ (∀ i j, SortByProjectName.Less p i j = Some false →
            SortByProjectName.Less p j i = Some false →
            Name <$> SortByProjectName.at_index p i
            = Name <$> SortByProjectName.at_index p j).
Proof.
  unfold SortByProjectName.Less, Less.
  split; [|split; [|split; [|split]]].
  - intros i j. rewrite <- !at_index_is_Some.
    destruct (SortByProjectName.at_index p i), (SortByProjectName.at_index p j);
      simpl; split; try done; intros Hboth; by destruct Hboth as [[? ?] [? ?]].
  - intros i. destruct (SortByProjectName.at_index p i); simpl; [|done].
    by rewrite ltb_irrefl.
  - intros i j.
    destruct (SortByProjectName.at_index p i), (SortByProjectName.at_index p j);
      simpl; try done.
    intros [= Hij]. by rewrite (ltb_asym _ _ Hij).
  - intros i j k.
    destruct (SortByProjectName.at_index p i), (SortByProjectName.at_index p j),
             (SortByProjectName.at_index p k); simpl; try done.
    intros [= Hij] [= Hjk]. by rewrite (ltb_trans _ _ _ Hij Hjk).
  - intros i j.
    destruct (SortByProjectName.at_index p i), (SortByProjectName.at_index p j);
      simpl; try done.
    intros [= Hij] [= Hji]. by rewrite (ltb_connex _ _ Hij Hji).
Qed.

Section Further.
Context `{Externals}.

(** In the slice [sort.Sort] leaves, when the names are unique, [Less]
    holds of two indices exactly when the first is below the second. *)
Theorem Less_after_sort (ps : list Project) (i j : Z) :
  NoDup (Name <$> ps) →
  (0 ≤ i < SortByProjectName.Len ps)%Z →
  (0 ≤ j < SortByProjectName.Len ps)%Z →
  SortByProjectName.Less (sort_Sort ps) i j = Some (bool_decide (i < j)%Z).
Proof.
  intros Hnd Hi Hj.
  assert (StronglySorted name_lt (sort_Sort ps)) as Hsorted.
  { apply sorted_strict; [apply sort_Sort_sorted|].
    by rewrite sort_Sort_Permutation. }
  assert (SortByProjectName.Len (sort_Sort ps) = SortByProjectName.Len ps) as Hlen.
  { unfold SortByProjectName.Len. by rewrite sort_Sort_Permutation. }
  rewrite <- Hlen in Hi, Hj.
  apply at_index_is_Some in Hi as [x Hx], Hj as [y Hy].
  unfold SortByProjectName.Less. rewrite Hx, Hy. simpl. f_equal.
  apply at_index_Some in Hx as [Hi Hx], Hy as [Hj Hy].
  case_bool_decide as Hij.
  - apply (StronglySorted_lookup_lt name_lt (sort_Sort ps) (Z.to_nat i) (Z.to_nat j));
      [done..|lia].
  - destruct (decide (i = j)) as [->|Hne].
    + rewrite Hx in Hy. injection Hy as ->. apply ltb_irrefl.
    + apply ltb_asym.
      apply (StronglySorted_lookup_lt name_lt (sort_Sort ps) (Z.to_nat j) (Z.to_nat i));
        [done..|lia].
Qed.

(** ** Short mode *)

Lemma concat_strings_app (l k : list string) :
  concat_strings (l ++ k) = concat_strings l +:+ concat_strings k.
Proof.
  induction l as [|s l IH]; [done|].
  change (concat_strings ((s :: l) ++ k)) with (s +:+ concat_strings (l ++ k)).
  change (concat_strings (s :: l)) with (s +:+ concat_strings l).
  by rewrite IH, string_app_assoc.
Qed.






(** ** Calls and writes *)

Lemma calls_app (l k : list event) : calls (l ++ k) = calls l ++ calls k.
Proof. apply filter_app. Qed.

(** Whatever the mode and whatever the server answers, [RunProjects] calls
    the server at most twice and never repeats a call: the access check
    once, for the current project and before the enumeration, exactly when
    a current project is selected; then the enumeration, once. *)
Theorem server_calls (o : ProjectsOptions) :
  calls (run (RunProjects o)).2 =
  (if 0 <? String.length (currentProject_of o)
   then [CallConfirmProjectAccess (currentProject_of o)]
   else [])
  ++ [CallGetProjects].
Proof.
  rewrite RunProjects_run.
  destruct (GetProjects_answer (Server o)) as [ps [e|]]; simpl;
    rewrite calls_app; unfold access_events;
    destruct (0 <? String.length (currentProject_of o)); try done.
  - unfold listing_events. simpl. by destruct (_ && _ && _).
  - unfold listing_events. simpl. by destruct (_ && _ && _).
Qed.

(** Something is written to the stream [o.Out] exactly when the enumeration
    succeeded with at least one project, the mode is verbose and the current
    project was confirmed accessible; what is written is then the footer.
    The message itself never goes to [o.Out]. *)
Theorem Out_receives_footer_only (o : ProjectsOptions) (s : string) :
  (Out, s) ∈ writes (run (RunProjects o)).2 ↔
  s = footer_of o
  ∧ (GetProjects_answer (Server o)).2 = None
  ∧ (GetProjects_answer (Server o)).1 ≠ []
  ∧ DisplayShort o = false
  ∧ currentProjectExists_of o = true.
Proof.
  rewrite RunProjects_writes.
  destruct (GetProjects_answer (Server o)) as [ps [e|]]; simpl.
  { split; [by intros ?%elem_of_nil|by intros (_ & ? & _)]. }
  unfold listing_events. simpl.
  destruct ps as [|p ps]; simpl.
  { rewrite list_elem_of_singleton. split; [done|by intros (_ & _ & ? & _)]. }
  destruct (DisplayShort o); simpl.
  { rewrite list_elem_of_singleton. split; [done|by intros (_ & _ & _ & ? & _)]. }
  destruct (currentProjectExists_of o); simpl.
  - rewrite elem_of_cons, list_elem_of_singleton.
    split; [intros [?|[= ->]]; done|intros (-> & _); by right].
  - rewrite list_elem_of_singleton. split; [done|by intros (_ & _ & _ & _ & ?)].
Qed.

(** ** The marked line *)

Lemma verbose_lines_marked (cp : string) (l : list Project) :
  concat_strings (imap (λ i p, project_line false cp true (i =? 0) p) l) =
  concat_strings
    ((λ p, nl +:+ (if String.eqb cp (Name p) then "  * " else "    ")
              +:+ entry p) <$> l).
Proof.
  f_equal. rewrite <- imap_const. apply imap_ext. intros i p _.
  unfold const, entry. by rewrite project_line_verbose.
Qed.

Lemma verbose_lines_unmarked (cp : string) (l : list Project) :
  cp ∉ Name <$> l →
  concat_strings
    ((λ p, nl +:+ (if String.eqb cp (Name p) then "  * " else "    ")
              +:+ entry p) <$> l)
  = unmarked_lines l.
Proof.
  intros Hcp. unfold unmarked_lines. f_equal. apply list_fmap_ext.
  intros i p Hp.
  destruct (String.eqb_spec cp (Name p)) as [->|_]; [|done].
  destruct Hcp. apply list_elem_of_fmap_2. by eapply list_elem_of_lookup_2.
Qed.

(** In the verbose listing of two or more projects with unique names, when
    the current project was confirmed accessible: if it is among the listed
    projects, exactly one line carries the marker ["  * "], the line of that
    project, and every line before and after it carries four spaces; if it
    is not among them, every line carries four spaces. *)
Theorem current_project_marked_once (o : ProjectsOptions) (ps : list Project) :
  DisplayShort o = false →
  GetProjects_answer (Server o) = (ps, None) →
  2 ≤ length ps →
  NoDup (Name <$> ps) →
  currentProjectExists_of o = true →
  (currentProject_of o ∈ Name <$> ps →
   ∃ before p after,
     sort_Sort ps = before ++ p :: after
     ∧ Name p = currentProject_of o
     ∧ head (writes (run (RunProjects o)).2) =
       Some (Stdout,
             (header (CommandName o)
              +:+ unmarked_lines before
              +:+ (nl +:+ "  * " +:+ entry p)
              +:+ unmarked_lines after)
             +:+ nl))
  ∧ (currentProject_of o ∉ Name <$> ps →
     head (writes (run (RunProjects o)).2) =
     Some (Stdout, (header (CommandName o) +:+ unmarked_lines (sort_Sort ps)) +:+ nl)).
Proof.
  intros Hv Hg Hlen Hnd Hex.
  rewrite (RunProjects_prints o ps Hg), projects_msg_listing by done.
  rewrite Hv, Hex, verbose_lines_marked.
  assert (NoDup (Name <$> sort_Sort ps)) as Hnd'
    by by rewrite sort_Sort_Permutation.
  split.
  - intros Hin. rewrite <- (sort_Sort_Permutation ps) in Hin.
    apply list_elem_of_fmap in Hin as (p & Hp & Hin).
    apply list_elem_of_split in Hin as (before & after & Hsplit).
    exists before, p, after. split; [done|]. split; [done|].
    rewrite Hsplit in Hnd' |- *.
    rewrite fmap_app, fmap_cons in Hnd'.
    apply NoDup_app in Hnd' as (_ & Hbefore & Hafter).
    apply NoDup_cons in Hafter as [Hafter _].
    rewrite fmap_app, fmap_cons, concat_strings_app.
    change (concat_strings (?a :: ?k)) with (a +:+ concat_strings k).
    rewrite !verbose_lines_unmarked.
    + rewrite <- Hp, String.eqb_refl. by rewrite !string_app_assoc.
    + by rewrite Hp.
    + rewrite Hp. intros Hin. apply (Hbefore _ Hin). by left.
  - intros Hnotin. rewrite verbose_lines_unmarked; [done|].
    by rewrite sort_Sort_Permutation.
Qed.

(** ** The invocation *)

(** An invocation without positional arguments: when [Complete] fails it
    ends on that error, as a usage error, with nothing sent to the server
    and nothing written; when [Complete] succeeds it does what
    [RunProjects] does on the completed options, ends normally exactly when
    the enumeration succeeded, whatever the access check answered, and
    otherwise ends on the error of the enumeration. *)
Theorem Run_without_arguments (f : Factory) (fullName : string) (short : bool) :
  run (Run f fullName short []) =
  match Complete f fullName short with
  | inr e => (FatalUsage e, [])
  | inl o =>
      (match (GetProjects_answer (Server o)).2 with
       | None => Returned
       | Some e => Fatal e
       end,
       (run (RunProjects o)).2)
  end.
Proof.
  unfold Run. destruct (Complete f fullName short) as [o|e]; [|done].
  simpl. rewrite <- (RunProjects_error o).
  unfold run, mbind, M_bind, CheckErr.
  destruct (RunProjects o []) as [[e|] log]; done.
Qed.

(** The options [Complete] hands to [RunProjects] hold the name and the flag
    of the invocation and what the factory built; [Complete] succeeds
    exactly when each of the four calls to the factory does, and on failure
    its error is the error of one of those calls. *)
Theorem Complete_outcome (f : Factory) (fullName : string) (short : bool) :
  match Complete f fullName short with
  | inl o =>
      (RawConfig f).2 = None ∧ (ToRESTConfig f).2 = None
      ∧ (ClientSet f).2 = None ∧ NewForConfig f (ToRESTConfig f).1 = None
      ∧ o = mkProjectsOptions (RawConfig f).1 (ToRESTConfig f).1 (ClientSet f).1
              fullName short
  | inr e =>
      (RawConfig f).2 = Some e
      ∨ (RawConfig f).2 = None
        ∧ ((ToRESTConfig f).2 = Some e
           ∨ (ToRESTConfig f).2 = None
             ∧ ((ClientSet f).2 = Some e
                ∨ (ClientSet f).2 = None
                  ∧ NewForConfig f (ToRESTConfig f).1 = Some e))
  end.
Proof.
  unfold Complete.
  destruct (RawConfig f) as [config [e|]]; simpl; [by left|].
  destruct (ToRESTConfig f) as [clientConfig [e|]]; simpl; [by right; split; [|left]|].
  destruct (ClientSet f) as [clients [e|]]; simpl.
  { right. split; [done|]. right. split; [done|]. by left. }
  destruct (NewForConfig f clientConfig) as [e|]; simpl; [|done].
  right. split; [done|]. right. split; [done|]. by right.
Qed.

End Further.

(** ** The further properties at concrete inputs *)

(** [Swap] on the slice [c], [a], [b], indices 0 and 2. *)
Lemma Swap_permutes_at_three :
  [mkProject "b" ∅; mkProject "a" ∅; mkProject "c" ∅]
    ≡ₚ [mkProject "c" ∅; mkProject "a" ∅; mkProject "b" ∅]
  ∧ SortByProjectName.Swap [mkProject "b" ∅; mkProject "a" ∅; mkProject "c" ∅] 0 2
    = Some [mkProject "c" ∅; mkProject "a" ∅; mkProject "b" ∅]
  ∧ SortByProjectName.Swap [mkProject "c" ∅; mkProject "a" ∅; mkProject "b" ∅] 2 0
    = Some [mkProject "b" ∅; mkProject "a" ∅; mkProject "c" ∅].
Proof.
  apply (Swap_permutes [mkProject "c" ∅; mkProject "a" ∅; mkProject "b" ∅]
           [mkProject "b" ∅; mkProject "a" ∅; mkProject "c" ∅] 0 2).
  reflexivity.
Defined.

(** [Less] on the sorted slice of [c], [a], [b], indices 0 and 1. *)
Lemma Less_after_sort_at_three :
  SortByProjectName.Less
    (sort_Sort [mkProject "c" ∅; mkProject "a" ∅; mkProject "b" ∅]) 0 1
  = Some (bool_decide (0 < 1)%Z).
Proof.
  apply (Less_after_sort [mkProject "c" ∅; mkProject "a" ∅; mkProject "b" ∅] 0 1).
  - compute_done.
  - vm_compute. split; [discriminate|reflexivity].
  - vm_compute. split; [discriminate|reflexivity].
Defined.


(** The marked line at [three_o], where ["b"] is current and listed. *)
Lemma current_project_marked_once_at_three :
  (currentProject_of three_o
     ∈ Name <$> [mkProject "c" ∅; mkProject "a" ∅; mkProject "b" ∅] →
   ∃ before p after,
     sort_Sort [mkProject "c" ∅; mkProject "a" ∅; mkProject "b" ∅]
       = before ++ p :: after
     ∧ Name p = currentProject_of three_o
     ∧ head (writes (run (RunProjects three_o)).2) =
       Some (Stdout,
             (header (CommandName three_o)
              +:+ unmarked_lines before
              +:+ (nl +:+ "  * " +:+ entry p)
              +:+ unmarked_lines after)
             +:+ nl))
  ∧ (currentProject_of three_o
       ∉ Name <$> [mkProject "c" ∅; mkProject "a" ∅; mkProject "b" ∅] →
     head (writes (run (RunProjects three_o)).2) =
     Some (Stdout,
           (header (CommandName three_o)
            +:+ unmarked_lines
                  (sort_Sort [mkProject "c" ∅; mkProject "a" ∅; mkProject "b" ∅]))
           +:+ nl)).
Proof.
  apply (current_project_marked_once three_o
           [mkProject "c" ∅; mkProject "a" ∅; mkProject "b" ∅]).
  - reflexivity.
  - reflexivity.
  - simpl. lia.
  - compute_done.
  - vm_compute. reflexivity.
Defined.

(** The forbidden current project of [forbidden_o]. *)
Lemma access_error_never_surfaces_at_forbidden :
  (run (RunProjects forbidden_o)).1 = None
  ∧ ∃ rest, writes (run (RunProjects forbidden_o)).2 =
      (Stdout, projects_msg forbidden_o (currentProject_of forbidden_o)
                 (currentProjectExists_of forbidden_o) [dev] +:+ nl) :: rest
      ∧ (rest = [] ∨ rest = [(Out, footer_of forbidden_o)]).
Proof.
  apply (access_error_never_surfaces forbidden_o [dev]). reflexivity.
Defined.
